(** * Sparse-compression stream scanner: [examples/sparse/compress.py]

    A shallow embedding of the decoder-side functions of the script
    ([read_n], [sc_decode_header], [sc_decode_block], [sc_stats]) and the
    properties of the block format that follow from them.

    Python integers are unbounded, so they are modelled by [Z]; the bit
    operators [&], [|], [<<] are [Z.land], [Z.lor], [Z.shiftl], which agree
    with Python on negative numbers as well (two's complement of unbounded
    width).  A stream is the Python iterator obtained by [iter(stream)]: the
    list of the items it has still to yield.  Exceptions are values. *)

From Stdlib Require Import ZArith Lia List Bool.
From stdpp Require Import base option list gmap.

Local Open Scope Z_scope.

(** ** Exceptions and the stream monad *)

Module Py.

(** The exceptions the four functions can raise.  The three [ValueError]s
    of the script are told apart by their message. *)
Inductive exn : Type :=
| StopIteration                      (* next() on an exhausted iterator *)
| InvalidHeader (head : Z)           (* ValueError("invalid header: 0x%02x") *)
| NegativeValue (n i : Z)            (* ValueError("read %d bytes got negative value: %d") *)
| InvalidBlockHead (head : Z)        (* ValueError("Invalid block head: 0x%02x") *)
| IsliceIndexError                   (* ValueError raised by itertools.islice *)
| AssertionError.                    (* assert stop *)

(** What a call produces: a value, an exception, or (for the [while] loop
    only) the exhaustion of the fuel the model gives it. *)
Inductive outcome (A : Type) : Type :=
| Ok (a : A)
| Raise (e : exn)
| OutOfFuel.
Arguments Ok {A} a.
Arguments Raise {A} e.
Arguments OutOfFuel {A}.

(** A computation over a mutable state [S]: the state is returned in every
    case, since an iterator keeps what it has consumed when the call
    raises. *)
Definition M (S A : Type) : Type := S -> outcome A * S.

Definition ret {S A} (a : A) : M S A := fun s => (Ok a, s).
Definition raise {S A} (e : exn) : M S A := fun s => (Raise e, s).
Definition out_of_fuel {S A} : M S A := fun s => (OutOfFuel, s).

Definition bind {S A B} (m : M S A) (k : A -> M S B) : M S B :=
  fun s =>
    match m s with
    | (Ok a, s') => k a s'
    | (Raise e, s') => (Raise e, s')
    | (OutOfFuel, s') => (OutOfFuel, s')
    end.

End Py.
Import Py.

Notation "x <- m ;; k" := (bind m (fun x => k))
  (at level 100, m at next level, right associativity).
Notation "m >> k" := (bind m (fun _ => k))
  (at level 100, right associativity).

(** ** Streams *)

Abbreviation stream := (list Z) (only parsing).

(** [next(stream)] *)
Definition next : M stream Z :=
  fun s =>
    match s with
    | [] => (Raise StopIteration, [])
    | b :: s' => (Ok b, s')
    end.

(** [sys.maxsize] of a 64-bit CPython; [itertools.islice] refuses indices
    outside [0 .. sys.maxsize]. *)
Definition sys_maxsize : Z := 2 ^ 63 - 1.

(** [next(islice(stream, size, size), None)]: [islice] checks its indices
    when it is built, then the one [next] pulls [size] items from the
    underlying iterator, stopping silently if it runs dry, and yields the
    default [None]. *)
Definition consume (size : Z) : M stream unit :=
  if (size <? 0) || (sys_maxsize <? size)
  then raise IsliceIndexError
  else fun s => (Ok tt, drop (Z.to_nat size) s).

(** Python truth value of an integer. *)
Definition truthy (z : Z) : bool := negb (z =? 0).

(** ** [read_n] *)

(** The [for j in range(n)] loop of [read_n], entered with [cnt] rounds
    left, loop index [j] and accumulator [i]. *)
Fixpoint read_n_loop (cnt : nat) (j i : Z) : M stream Z :=
  match cnt with
  | O => ret i
  | S cnt' =>
      b <- next ;;
      read_n_loop cnt' (j + 1) (Z.lor i (Z.shiftl b (8 * j)))
  end.

Definition read_n (n : Z) : M stream Z :=
  i <- read_n_loop (Z.to_nat n) 0 0 ;;
  if i <? 0 then raise (NegativeValue n i) else ret i.

(** ** [sc_decode_header] *)

Inductive endianness : Type := little | big.

Definition sc_decode_header : M stream (endianness * Z) :=
  head <- next ;;
  if truthy (Z.land head 0xe0) then raise (InvalidHeader head)
  else
    let endian := if truthy (Z.land head 0x10) then big else little in
    let length := Z.land head 0x0f in
    nbits <- read_n length ;;
    ret (endian, nbits).

(** ** [sc_decode_block] *)

(** The [stats] dictionary built by [sc_stats]; ['blocks'] is a
    [collections.Counter], a map whose missing keys read as 0. *)
Record Stats : Type := mkStats {
  endian : endianness;
  nbits : Z;
  blocks : gmap Z Z
}.

Definition counter_get (c : gmap Z Z) (n : Z) : Z := default 0 (c !! n).

(** [c[n] += 1] *)
Definition counter_incr (n : Z) (c : gmap Z Z) : gmap Z Z :=
  <[n := counter_get c n + 1]> c.

(** [stats['blocks'][n] += 1] *)
Definition tally (n : Z) (st : Stats) : Stats :=
  mkStats (endian st) (nbits st) (counter_incr n (blocks st)).

(** [sc_decode_block] works on two mutable objects, the iterator and the
    dictionary. *)
Abbreviation scan_state := (list Z * Stats)%type (only parsing).

Definition on_stream {A} (m : M stream A) : M scan_state A :=
  fun '(s, st) => let (r, s') := m s in (r, (s', st)).

Definition on_stats (f : Stats -> Stats) : M scan_state unit :=
  fun '(s, st) => (Ok tt, (s, f st)).

(** The [if]/[elif] chain of [sc_decode_block] on a non-zero [head]: the
    block type [n] and the factor [k]. *)
Definition block_kind (head : Z) : M scan_state (Z * Z) :=
  if head <=? 0x80 then ret (0, head)
  else if (0xa0 <=? head) && (head <? 0xc0) then ret (1, head - 0xa0)
  else if (0xc2 <=? head) && (head <=? 0xc4) then
    k <- on_stream next ;; ret (head - 0xc0, k)
  else raise (InvalidBlockHead head).

Definition sc_decode_block : M scan_state bool :=
  head <- on_stream next ;;
  if head =? 0 then ret false
  else
    nk <- block_kind head ;;
    let '(n, k) := nk in
    on_stats (tally n) >>
    let size := Z.max 1 n * k in
    on_stream (consume size) >>
    ret true.

(** ** [sc_stats] *)

(** [while sc_decode_block(stream, stats): pass], with a bound on the
    number of rounds. *)
Fixpoint block_loop (fuel : nat) : M scan_state unit :=
  match fuel with
  | O => out_of_fuel
  | S fuel' =>
      more <- sc_decode_block ;;
      if more then block_loop fuel' else ret tt
  end.

(** The [try: next(stream) except StopIteration: stop = True] statement:
    the value of [stop] after it. *)
Definition try_next_stop : M stream bool :=
  fun s =>
    match next s with
    | (Raise StopIteration, s') => (Ok true, s')
    | (Ok _, s') => (Ok false, s')
    | (Raise e, s') => (Raise e, s')
    | (OutOfFuel, s') => (OutOfFuel, s')
    end.

(** Runs a computation on the iterator and a dictionary local to the
    caller, and hands the dictionary back with the result. *)
Definition with_stats {A} (st : Stats) (m : M scan_state A) : M stream (A * Stats) :=
  fun s =>
    match m (s, st) with
    | (Ok a, (s', st')) => (Ok (a, st'), s')
    | (Raise e, (s', _)) => (Raise e, s')
    | (OutOfFuel, (s', _)) => (OutOfFuel, s')
    end.

(** Every round of the loop that goes on has consumed a head byte, so one
    round more than the stream has items is enough (see
    [block_loop_enough_fuel]). *)
Definition sc_stats : M stream Stats :=
  hdr <- sc_decode_header ;;
  let '(endian, nbits) := hdr in
  let stats := mkStats endian nbits ∅ in
  fun s =>
    (r <- with_stats stats (block_loop (S (length s))) ;;
     let '(_, stats) := r in
     stop <- try_next_stop ;;
     if stop then ret stats else raise AssertionError) s.

(** ** Reference notions the properties are stated with *)

(** A value a byte stream can yield. *)
Definition is_byte (b : Z) : Prop := 0 <= b <= 255.

(** The little-endian integer of a list of bytes whose first item has
    index [j]: item [j] contributes [byte << 8*j]. *)
Fixpoint le_value_from (j : Z) (bytes : list Z) : Z :=
  match bytes with
  | [] => 0
  | b :: bytes' => Z.shiftl b (8 * j) + le_value_from (j + 1) bytes'
  end.

Definition le_value (bytes : list Z) : Z := le_value_from 0 bytes.

(** The [L] low bytes of [v], least significant first. *)
Fixpoint le_bytes (L : nat) (v : Z) : list Z :=
  match L with
  | O => []
  | S L' => v mod 256 :: le_bytes L' (v / 256)
  end.

(** The dictionary [sc_stats] starts the block loop with. *)
Definition fresh_stats (e : endianness) (n : Z) : Stats := mkStats e n ∅.

(** [scans_to_stop s s']: from state [s] the decoder reads zero or more
    blocks and then the stop byte, which leaves it in state [s']. *)
Inductive scans_to_stop : scan_state -> scan_state -> Prop :=
| scan_stop rest st :
    scans_to_stop (0 :: rest, st) (rest, st)
| scan_block s s1 s' :
    sc_decode_block s = (Ok true, s1) ->
    scans_to_stop s1 s' ->
    scans_to_stop s s'.

(** The accumulator of [read_n]'s loop after the items [bytes], entered
    with loop index [j] and accumulator [i]. *)
Fixpoint lor_bytes (j i : Z) (bytes : list Z) : Z :=
  match bytes with
  | [] => i
  | b :: bytes' => lor_bytes (j + 1) (Z.lor i (Z.shiftl b (8 * j))) bytes'
  end.

(** [blocks.total()], as [test_sc_stat] prints it: the sum of the counts. *)
Definition counter_total (c : gmap Z Z) : Z :=
  map_fold (fun _ v acc => v + acc) 0 c.

(** [scans_blocks k s s']: as [scans_to_stop], with the number [k] of
    blocks read before the stop byte. *)
Inductive scans_blocks : nat -> scan_state -> scan_state -> Prop :=
| scanned_stop rest st :
    scans_blocks 0 (0 :: rest, st) (rest, st)
| scanned_block k s s1 s' :
    sc_decode_block s = (Ok true, s1) ->
    scans_blocks k s1 s' ->
    scans_blocks (S k) s s'.

(** The head bytes [sc_decode_block] rejects. *)
Definition reserved_head (h : Z) : Prop :=
  0x81 <= h <= 0x9f \/ 0xc0 <= h <= 0xc1 \/ 0xc5 <= h <= 0xff.

(** Proves that a literal list is a list of bytes. *)
Ltac byte_list :=
  repeat first
    [ apply List.Forall_nil
    | apply List.Forall_cons; [unfold is_byte; lia |] ].

(** * Properties *)

(** ** Bit-level facts *)

Lemma land_low_shiftl_high (i b k : Z) :
  0 <= k -> 0 <= i < 2 ^ k -> Z.land i (Z.shiftl b k) = 0.
Proof.
  intros Hk Hi. apply Z.bits_inj'. intros n Hn.
  rewrite Z.land_spec, Z.bits_0.
  destruct (Z.lt_ge_cases n k) as [Hlt | Hge].
  - rewrite Z.shiftl_spec_low by lia. apply andb_false_r.
  - rewrite <- (Z.mod_small i (2 ^ k)) by lia.
    rewrite Z.mod_pow2_bits_high by lia. reflexivity.
Qed.

Lemma lor_low_shiftl_high (i b k : Z) :
  0 <= k -> 0 <= i < 2 ^ k -> Z.lor i (Z.shiftl b k) = i + Z.shiftl b k.
Proof.
  intros Hk Hi.
  pose proof (land_low_shiftl_high i b k Hk Hi) as Hland.
  rewrite <- Z.lxor_lor by exact Hland.
  symmetry. apply Z.add_nocarry_lxor. exact Hland.
Qed.

Lemma land_pow2_testbit (a n : Z) :
  0 <= n -> Z.land a (2 ^ n) = if Z.testbit a n then 2 ^ n else 0.
Proof.
  intros Hn. apply Z.bits_inj'. intros m Hm.
  rewrite Z.land_spec.
  destruct (Z.eq_dec m n) as [-> | Hne].
  - rewrite Z.pow2_bits_true by lia.
    destruct (Z.testbit a n); simpl.
    + rewrite Z.pow2_bits_true by lia. reflexivity.
    + rewrite Z.bits_0. reflexivity.
  - rewrite Z.pow2_bits_false by lia. rewrite andb_false_r.
    destruct (Z.testbit a n).
    + rewrite Z.pow2_bits_false by lia. reflexivity.
    + rewrite Z.bits_0. reflexivity.
Qed.

Lemma truthy_land_0x10 (head : Z) : truthy (Z.land head 0x10) = Z.testbit head 4.
Proof.
  unfold truthy. change 0x10 with (2 ^ 4).
  rewrite land_pow2_testbit by lia.
  destruct (Z.testbit head 4); reflexivity.
Qed.

Lemma land_0x0f_range (head : Z) : 0 <= Z.land head 0x0f <= 15.
Proof.
  change (Z.land head 0x0f) with (Z.land head (Z.ones 4)).
  rewrite Z.land_ones by lia. change (2 ^ 4) with 16. pose proof (Z.mod_pos_bound head 16). lia.
Qed.

(** ** [read_n] *)

Lemma shiftl_byte_bounds (b j : Z) :
  0 <= j -> is_byte b ->
  0 <= Z.shiftl b (8 * j) <= 255 * 2 ^ (8 * j).
Proof.
  intros Hj [Hb0 Hb1]. rewrite Z.shiftl_mul_pow2 by lia.
  assert (0 < 2 ^ (8 * j)) by (apply Z.pow_pos_nonneg; lia). nia.
Qed.

Lemma pow2_next_byte (j : Z) : 0 <= j -> 2 ^ (8 * (j + 1)) = 256 * 2 ^ (8 * j).
Proof.
  intros Hj. replace (8 * (j + 1)) with (8 + 8 * j) by lia.
  rewrite Z.pow_add_r by lia. reflexivity.
Qed.

Lemma le_value_from_bounds (bytes : list Z) (j : Z) :
  0 <= j -> Forall is_byte bytes ->
  0 <= le_value_from j bytes
  /\ 2 ^ (8 * j) + le_value_from j bytes <= 2 ^ (8 * (j + Z.of_nat (length bytes))).
Proof.
  intros Hj Hb. revert j Hj.
  induction Hb as [| b bytes Hbyte Hrest IH]; intros j Hj; simpl le_value_from.
  - rewrite Z.add_0_r. simpl length. rewrite Z.add_0_r. lia.
  - destruct (IH (j + 1) ltac:(lia)) as [IH0 IH1].
    pose proof (shiftl_byte_bounds b j Hj Hbyte) as Hs.
    rewrite pow2_next_byte in IH1 by lia.
    replace (j + Z.of_nat (length (b :: bytes)))
      with (j + 1 + Z.of_nat (length bytes)) by (simpl length; lia).
    lia.
Qed.

Lemma read_n_loop_bytes (bytes rest : list Z) (j i : Z) :
  0 <= j -> 0 <= i < 2 ^ (8 * j) -> Forall is_byte bytes ->
  read_n_loop (length bytes) j i (bytes ++ rest)
  = (Ok (i + le_value_from j bytes), rest).
Proof.
  intros Hj Hi Hb. revert j i Hj Hi.
  induction Hb as [| b bytes Hbyte Hrest IH]; intros j i Hj Hi.
  - simpl. unfold ret. rewrite Z.add_0_r. reflexivity.
  - simpl. unfold bind at 1. simpl.
    rewrite lor_low_shiftl_high by lia.
    pose proof (shiftl_byte_bounds b j Hj Hbyte) as Hs.
    rewrite IH.
    + rewrite Z.add_assoc. reflexivity.
    + lia.
    + rewrite pow2_next_byte by lia. lia.
Qed.

Lemma read_n_loop_short (cnt : nat) (s : list Z) (j i : Z) :
  (length s < cnt)%nat ->
  read_n_loop cnt j i s = (Raise StopIteration, []).
Proof.
  revert s j i. induction cnt as [| cnt IH]; intros s j i Hlen.
  - lia.
  - destruct s as [| b s]; simpl.
    + reflexivity.
    + unfold bind at 1. simpl. apply IH. simpl in Hlen. lia.
Qed.

Lemma read_n_exact (n : Z) (bytes rest : list Z) :
  length bytes = Z.to_nat n -> Forall is_byte bytes ->
  read_n n (bytes ++ rest) = (Ok (le_value bytes), rest).
Proof.
  intros Hlen Hb. unfold read_n, bind. rewrite <- Hlen.
  rewrite read_n_loop_bytes by (try assumption; simpl; lia).
  rewrite Z.add_0_l. fold (le_value bytes).
  destruct (le_value_from_bounds bytes 0 ltac:(lia) Hb) as [H0 _].
  fold (le_value bytes) in H0.
  destruct (Z.ltb_spec (le_value bytes) 0); [lia | reflexivity].
Qed.

Lemma read_n_short (n : Z) (s : list Z) :
  (length s < Z.to_nat n)%nat -> read_n n s = (Raise StopIteration, []).
Proof.
  intros Hlen. unfold read_n, bind.
  rewrite read_n_loop_short by assumption. reflexivity.
Qed.

(** Outside the byte range the guard of [read_n] can fire. *)
Example read_n_negative_item :
  read_n 1 [-1] = (Raise (NegativeValue 1 (-1)), []).
Proof. reflexivity. Qed.

(** C9. On a stream of byte values (0..255) the value [read_n] accumulates
    is never negative: the call never raises the "negative value" error,
    and when the stream holds [n] items it returns the little-endian
    integer of the [n] bytes it consumed, leaving the rest. *)
Theorem read_n_byte_stream (n : Z) (s : list Z) :
  Forall is_byte s ->
  (forall m i, fst (read_n n s) <> Raise (NegativeValue m i))
  /\ ((Z.to_nat n <= length s)%nat ->
      read_n n s = (Ok (le_value (take (Z.to_nat n) s)), drop (Z.to_nat n) s)
      /\ 0 <= le_value (take (Z.to_nat n) s)).
Proof.
  intros Hb.
  assert (Hfull : (Z.to_nat n <= length s)%nat ->
      read_n n s = (Ok (le_value (take (Z.to_nat n) s)), drop (Z.to_nat n) s)
      /\ 0 <= le_value (take (Z.to_nat n) s)).
  { intros Hlen.
    assert (Htake : Forall is_byte (take (Z.to_nat n) s)) by (apply Forall_take; exact Hb).
    split.
    - rewrite <- (take_drop (Z.to_nat n) s) at 1.
      apply read_n_exact; [| exact Htake].
      rewrite length_take. lia.
    - apply (le_value_from_bounds _ 0); [lia | exact Htake]. }
  split; [| exact Hfull].
  intros m i.
  destruct (le_lt_dec (Z.to_nat n) (length s)) as [Hle | Hlt].
  - destruct (Hfull Hle) as [-> _]. simpl. discriminate.
  - rewrite read_n_short by exact Hlt. simpl. discriminate.
Qed.

Lemma read_n_byte_stream_witness :
  Forall is_byte [0x10; 0x27; 9]
  /\ read_n 2 [0x10; 0x27; 9] = (Ok 10000, [9]).
Proof.
  assert (Hb : Forall is_byte [0x10; 0x27; 9]) by byte_list.
  split; [exact Hb |].
  destruct (read_n_byte_stream 2 [0x10; 0x27; 9] Hb) as [_ Hfull].
  destruct Hfull as [Heq _]; [simpl; lia | exact Heq].
Defined.

(** ** [sc_decode_header] *)

Lemma sc_decode_header_cons (head : Z) (s : list Z) :
  sc_decode_header (head :: s)
  = if truthy (Z.land head 0xe0) then (Raise (InvalidHeader head), s)
    else match read_n (Z.land head 0x0f) s with
         | (Ok n, s') => (Ok (if Z.testbit head 4 then big else little, n), s')
         | (Raise e, s') => (Raise e, s')
         | (OutOfFuel, s') => (OutOfFuel, s')
         end.
Proof.
  unfold sc_decode_header. unfold bind at 1. simpl next. cbv beta iota.
  destruct (truthy (Z.land head 0xe0)); [reflexivity |].
  unfold bind. rewrite truthy_land_0x10.
  destruct (read_n (Z.land head 0x0f) s) as [[nb | e |] s']; reflexivity.
Qed.

(** C6. A first byte with any of the top three bits set makes header
    decoding raise the invalid-header error; only that byte has been
    taken from the stream. *)
Theorem sc_decode_header_reserved_bits (head : Z) (rest : list Z) :
  Z.land head 0xe0 <> 0 ->
  sc_decode_header (head :: rest) = (Raise (InvalidHeader head), rest).
Proof.
  intros Hbits. rewrite sc_decode_header_cons. unfold truthy.
  destruct (Z.eqb_spec (Z.land head 0xe0) 0); [contradiction | reflexivity].
Qed.

Lemma sc_decode_header_reserved_bits_witness :
  sc_decode_header [0x25; 1; 2; 3]
  = (Raise (InvalidHeader 0x25), [1; 2; 3]).
Proof.
  apply (sc_decode_header_reserved_bits 0x25 [1; 2; 3]).
  vm_compute. discriminate.
Defined.

(** C5. With the top three bits of the first byte clear, header decoding
    returns big-endian iff bit 4 is set, and for [nbits] the little-endian
    integer of the next [L = head & 0x0f] bytes; with [L = 0] it returns
    [nbits = 0] and consumes nothing after the first byte. *)
Theorem sc_decode_header_valid (head : Z) :
  Z.land head 0xe0 = 0 ->
  (forall bytes rest,
      Z.of_nat (length bytes) = Z.land head 0x0f ->
      Forall is_byte bytes ->
      sc_decode_header (head :: bytes ++ rest)
      = (Ok (if Z.testbit head 4 then big else little, le_value bytes), rest))
  /\ (Z.land head 0x0f = 0 ->
      forall rest,
        sc_decode_header (head :: rest)
        = (Ok (if Z.testbit head 4 then big else little, 0), rest)).
Proof.
  intros Hbits.
  assert (Hmain : forall bytes rest,
      Z.of_nat (length bytes) = Z.land head 0x0f ->
      Forall is_byte bytes ->
      sc_decode_header (head :: bytes ++ rest)
      = (Ok (if Z.testbit head 4 then big else little, le_value bytes), rest)).
  { intros bytes rest Hlen Hb. rewrite sc_decode_header_cons.
    unfold truthy. rewrite Hbits. simpl negb. cbv iota.
    rewrite read_n_exact by (try assumption; lia). reflexivity. }
  split; [exact Hmain |].
  intros HL rest. apply (Hmain [] rest); [simpl; lia | constructor].
Qed.

Lemma sc_decode_header_valid_witness :
  sc_decode_header [0x12; 0x10; 0x27; 0x03; 0]
  = (Ok (big, 10000), [0x03; 0]).
Proof.
  destruct (sc_decode_header_valid 0x12) as [Hmain _]; [reflexivity |].
  apply (Hmain [0x10; 0x27] [0x03; 0]); [reflexivity | byte_list].
Defined.

(** The stream ends inside the length field: [next] raises
    [StopIteration] in [read_n]'s loop, before the sign check. *)
Lemma premature_end_is_not_negative_value :
  Z.land 0x02 0xe0 = 0 /\ Z.land 0x02 0x0f = 2 /\ (length [0x05] < 2)%nat
  /\ sc_decode_header [0x02; 0x05] = (Raise StopIteration, [])
  /\ (forall n i, fst (sc_decode_header [0x02; 0x05]) <> Raise (NegativeValue n i)).
Proof.
  repeat split; try reflexivity.
  - simpl. lia.
  - intros n i. vm_compute. discriminate.
Qed.

(** C4 (amended). When the length nibble is [L] and fewer than [L] bytes
    follow, header decoding fails with [StopIteration], raised by the
    [next] that finds the stream exhausted. *)
Theorem sc_decode_header_premature_end (head : Z) (rest : list Z) :
  Z.land head 0xe0 = 0 ->
  (length rest < Z.to_nat (Z.land head 0x0f))%nat ->
  sc_decode_header (head :: rest) = (Raise StopIteration, []).
Proof.
  intros Hbits Hlen. rewrite sc_decode_header_cons.
  unfold truthy. rewrite Hbits. simpl negb. cbv iota.
  rewrite read_n_short by exact Hlen. reflexivity.
Qed.

Lemma sc_decode_header_premature_end_witness :
  sc_decode_header [0x03; 0xff; 0xff] = (Raise StopIteration, []).
Proof.
  apply (sc_decode_header_premature_end 0x03 [0xff; 0xff]).
  - reflexivity.
  - vm_compute. lia.
Defined.

(** ** [sc_decode_block] *)

Lemma sys_maxsize_val : sys_maxsize = 9223372036854775807.
Proof. reflexivity. Qed.

Lemma consume_in_range (size : Z) (s : list Z) :
  0 <= size <= sys_maxsize ->
  consume size s = (Ok tt, drop (Z.to_nat size) s).
Proof.
  intros Hsize. unfold consume.
  destruct (Z.ltb_spec size 0); [lia |].
  destruct (Z.ltb_spec sys_maxsize size); [lia |].
  reflexivity.
Qed.

Lemma block_kind_raw (head : Z) (x : scan_state) :
  head <= 0x80 -> block_kind head x = (Ok (0, head), x).
Proof.
  intros H. unfold block_kind.
  destruct (Z.leb_spec head 0x80); [reflexivity | lia].
Qed.

Lemma block_kind_pos1 (head : Z) (x : scan_state) :
  0xa0 <= head <= 0xbf -> block_kind head x = (Ok (1, head - 0xa0), x).
Proof.
  intros H. unfold block_kind.
  destruct (Z.leb_spec head 0x80); [lia |].
  destruct (Z.leb_spec 0xa0 head); [| lia].
  destruct (Z.ltb_spec head 0xc0); [reflexivity | lia].
Qed.

Lemma block_kind_posN (head : Z) (s : list Z) (st : Stats) :
  0xc2 <= head <= 0xc4 ->
  block_kind head (s, st)
  = match s with
    | [] => (Raise StopIteration, ([], st))
    | count :: s' => (Ok (head - 0xc0, count), (s', st))
    end.
Proof.
  intros H. unfold block_kind.
  destruct (Z.leb_spec head 0x80); [lia |].
  destruct (Z.leb_spec 0xa0 head); [| lia].
  destruct (Z.ltb_spec head 0xc0); [lia |]. simpl andb. cbv iota.
  destruct (Z.leb_spec 0xc2 head); [| lia].
  destruct (Z.leb_spec head 0xc4); [| lia]. simpl andb. cbv iota.
  destruct s; reflexivity.
Qed.

Lemma block_kind_reserved (head : Z) (x : scan_state) :
  0x81 <= head <= 0x9f \/ 0xc0 <= head <= 0xc1 \/ 0xc5 <= head ->
  block_kind head x = (Raise (InvalidBlockHead head), x).
Proof.
  intros H. unfold block_kind.
  destruct (Z.leb_spec head 0x80); [lia |].
  destruct (Z.leb_spec 0xa0 head), (Z.ltb_spec head 0xc0);
    simpl andb; cbv iota; try lia;
    destruct (Z.leb_spec 0xc2 head), (Z.leb_spec head 0xc4);
    simpl andb; cbv iota; try lia; reflexivity.
Qed.

(** The chain leaves the dictionary alone, and takes at most the count
    byte from the stream. *)
Lemma block_kind_state (head : Z) (s : list Z) (st : Stats) r s' st' :
  block_kind head (s, st) = (r, (s', st')) ->
  st' = st /\ (length s' <= length s)%nat.
Proof.
  unfold block_kind.
  destruct (head <=? 0x80).
  { intros [= <- <- <-]. split; [reflexivity | lia]. }
  destruct ((0xa0 <=? head) && (head <? 0xc0)).
  { intros [= <- <- <-]. split; [reflexivity | lia]. }
  destruct ((0xc2 <=? head) && (head <=? 0xc4)).
  - destruct s as [| c s0]; intros [= <- <- <-]; split; simpl; try reflexivity; lia.
  - intros [= <- <- <-]. split; [reflexivity | lia].
Qed.

Lemma sc_decode_block_stop (rest : list Z) (st : Stats) :
  sc_decode_block (0 :: rest, st) = (Ok false, (rest, st)).
Proof. reflexivity. Qed.

Lemma sc_decode_block_empty (st : Stats) :
  sc_decode_block ([], st) = (Raise StopIteration, ([], st)).
Proof. reflexivity. Qed.

(** One round on a non-zero head, in terms of the chain and the skip. *)
Lemma sc_decode_block_cons (head : Z) (s : list Z) (st : Stats) :
  head <> 0 ->
  sc_decode_block (head :: s, st)
  = match block_kind head (s, st) with
    | (Ok (n, k), (s1, st1)) =>
        match consume (Z.max 1 n * k) s1 with
        | (Ok _, s2) => (Ok true, (s2, tally n st1))
        | (Raise e, s2) => (Raise e, (s2, tally n st1))
        | (OutOfFuel, s2) => (OutOfFuel, (s2, tally n st1))
        end
    | (Raise e, x) => (Raise e, x)
    | (OutOfFuel, x) => (OutOfFuel, x)
    end.
Proof.
  intros Hne. unfold sc_decode_block. unfold bind at 1.
  simpl (on_stream next _). cbv beta iota.
  destruct (Z.eqb_spec head 0) as [Heq | _]; [contradiction |].
  unfold bind at 1. cbv beta.
  destruct (block_kind head (s, st)) as [[[n k] | e |] [s1 st1]]; try reflexivity.
  unfold bind, on_stats, on_stream. cbv beta iota.
  destruct (consume (Z.max 1 n * k) s1) as [[u | e |] s2]; reflexivity.
Qed.

Lemma sc_decode_block_step (head : Z) (s s1 : list Z) (st st1 : Stats) (n k : Z) :
  head <> 0 ->
  block_kind head (s, st) = (Ok (n, k), (s1, st1)) ->
  0 <= Z.max 1 n * k <= sys_maxsize ->
  sc_decode_block (head :: s, st)
  = (Ok true, (drop (Z.to_nat (Z.max 1 n * k)) s1, tally n st1)).
Proof.
  intros Hne Hkind Hsize.
  rewrite sc_decode_block_cons by exact Hne. rewrite Hkind.
  rewrite consume_in_range by exact Hsize. reflexivity.
Qed.

(** A round that goes on has taken at least the head byte. *)
Lemma sc_decode_block_progress (s s' : list Z) (st st' : Stats) :
  sc_decode_block (s, st) = (Ok true, (s', st')) ->
  (length s' < length s)%nat.
Proof.
  destruct s as [| head s]; [discriminate |].
  destruct (Z.eq_dec head 0) as [-> | Hne]; [discriminate |].
  rewrite sc_decode_block_cons by exact Hne.
  destruct (block_kind head (s, st)) as [[[n k] | e |] [s1 st1]] eqn:Hkind;
    try discriminate.
  apply block_kind_state in Hkind as [_ Hlen].
  unfold consume.
  destruct ((Z.max 1 n * k <? 0) || (sys_maxsize <? Z.max 1 n * k));
    [discriminate |].
  intros [= <- _]. rewrite length_drop. simpl. lia.
Qed.

Lemma counter_get_incr (c : gmap Z Z) (n m : Z) :
  counter_get (counter_incr n c) m
  = if decide (m = n) then counter_get c m + 1 else counter_get c m.
Proof.
  unfold counter_incr. unfold counter_get at 1.
  destruct (decide (m = n)) as [-> | Hne].
  - rewrite lookup_insert_eq. reflexivity.
  - rewrite lookup_insert_ne by congruence. reflexivity.
Qed.

Lemma block_kind_size (head : Z) (s s1 : list Z) (st st1 : Stats) (n k : Z) :
  Forall is_byte (head :: s) ->
  head <> 0 ->
  block_kind head (s, st) = (Ok (n, k), (s1, st1)) ->
  0 <= Z.max 1 n * k <= 1020.
Proof.
  intros Hb Hne. apply Forall_cons_1 in Hb as [[Hh0 Hh1] Hs].
  unfold block_kind.
  destruct (Z.leb_spec head 0x80).
  { intros [= <- <- _ _]. lia. }
  destruct (Z.leb_spec 0xa0 head), (Z.ltb_spec head 0xc0); simpl andb; cbv iota;
    try (intros [= <- <- _ _]; lia);
    destruct (Z.leb_spec 0xc2 head), (Z.leb_spec head 0xc4); simpl andb; cbv iota;
    try discriminate; try lia.
  destruct s as [| c s0]; [discriminate |].
  apply Forall_cons_1 in Hs as [[Hc0 Hc1] _].
  intros [= <- <- _ _]. nia.
Qed.

(** C1. One block-decoding step on a byte stream, by the value of the head
    byte: 0 is the stop byte (no payload, nothing tallied); 1..0x80 is a
    type-0 block with [head] payload bytes; 0xa0..0xbf is a type-1 block
    with [head - 0xa0] payload bytes; 0xc2..0xc4 is a block of type
    [head - 0xc0] that reads one count byte and has
    [(head - 0xc0) * count] payload bytes.  A block adds one to the tally
    of its own type and leaves the other tallies as they were. *)
Theorem sc_decode_block_classifies (head : Z) (rest : list Z) (st : Stats) :
  Forall is_byte (head :: rest) ->
  (head = 0 -> sc_decode_block (head :: rest, st) = (Ok false, (rest, st)))
  /\ (1 <= head <= 0x80 ->
      sc_decode_block (head :: rest, st)
      = (Ok true, (drop (Z.to_nat head) rest, tally 0 st)))
  /\ (0xa0 <= head <= 0xbf ->
      sc_decode_block (head :: rest, st)
      = (Ok true, (drop (Z.to_nat (head - 0xa0)) rest, tally 1 st)))
  /\ (0xc2 <= head <= 0xc4 ->
      forall count rest', rest = count :: rest' ->
      sc_decode_block (head :: rest, st)
      = (Ok true, (drop (Z.to_nat ((head - 0xc0) * count)) rest',
                   tally (head - 0xc0) st)))
  /\ (forall n m,
      counter_get (blocks (tally n st)) m
      = if decide (m = n) then counter_get (blocks st) m + 1
        else counter_get (blocks st) m).
Proof.
  intros Hb. repeat split.
  - intros ->. reflexivity.
  - intros Hh.
    rewrite (sc_decode_block_step head rest rest st st 0 head).
    + replace (Z.max 1 0 * head) with head by lia. reflexivity.
    + lia.
    + apply block_kind_raw. lia.
    + rewrite sys_maxsize_val. lia.
  - intros Hh.
    rewrite (sc_decode_block_step head rest rest st st 1 (head - 0xa0)).
    + replace (Z.max 1 1 * (head - 0xa0)) with (head - 0xa0) by lia. reflexivity.
    + lia.
    + apply block_kind_pos1. lia.
    + rewrite sys_maxsize_val. lia.
  - intros Hh count rest' ->.
    assert (Hkind : block_kind head (count :: rest', st)
                    = (Ok (head - 0xc0, count), (rest', st)))
      by (rewrite block_kind_posN by lia; reflexivity).
    assert (Hne : head <> 0) by lia.
    pose proof (block_kind_size _ _ _ _ _ _ _ Hb Hne Hkind) as Hsize.
    rewrite (sc_decode_block_step _ _ _ _ _ _ _ Hne Hkind)
      by (rewrite sys_maxsize_val; lia).
    replace (Z.max 1 (head - 0xc0)) with (head - 0xc0) by lia. reflexivity.
  - intros n m. apply counter_get_incr.
Qed.

Lemma sc_decode_block_classifies_witness :
  Forall is_byte [0xc3; 2; 11; 12; 13; 21; 22; 23; 0]
  /\ sc_decode_block ([0xc3; 2; 11; 12; 13; 21; 22; 23; 0], fresh_stats little 0)
     = (Ok true, ([0], tally 3 (fresh_stats little 0)))
  /\ counter_get (blocks (tally 3 (fresh_stats little 0))) 3 = 1.
Proof.
  assert (Hb : Forall is_byte [0xc3; 2; 11; 12; 13; 21; 22; 23; 0]) by byte_list.
  split; [exact Hb |].
  destruct (sc_decode_block_classifies 0xc3 [2; 11; 12; 13; 21; 22; 23; 0]
              (fresh_stats little 0) Hb) as (_ & _ & _ & HposN & Htally).
  split.
  - apply (HposN ltac:(lia) 2 [11; 12; 13; 21; 22; 23; 0] eq_refl).
  - rewrite Htally. reflexivity.
Defined.

(** C7. A head byte in one of the reserved ranges 0x81-0x9f, 0xc0-0xc1,
    0xc5-0xff makes block decoding raise the invalid-block-head error that
    carries the byte; no block is tallied and nothing after the head byte
    is consumed. *)
Theorem sc_decode_block_reserved_head (head : Z) (rest : list Z) (st : Stats) :
  0x81 <= head <= 0x9f \/ 0xc0 <= head <= 0xc1 \/ 0xc5 <= head <= 0xff ->
  sc_decode_block (head :: rest, st) = (Raise (InvalidBlockHead head), (rest, st)).
Proof.
  intros Hh. rewrite sc_decode_block_cons by lia.
  rewrite block_kind_reserved by lia. reflexivity.
Qed.

Lemma sc_decode_block_reserved_head_witness :
  sc_decode_block ([0x81; 1; 2; 3], fresh_stats big 7)
  = (Raise (InvalidBlockHead 0x81), ([1; 2; 3], fresh_stats big 7)).
Proof.
  apply (sc_decode_block_reserved_head 0x81 [1; 2; 3] (fresh_stats big 7)).
  left. lia.
Defined.

(** A type-0 head declares three payload bytes and two remain: the call
    returns [True] with the block tallied and the stream exhausted; it
    raises nothing. *)
Lemma truncated_payload_is_not_an_error :
  block_kind 0x03 ([1; 2], fresh_stats little 24)
  = (Ok (0, 3), ([1; 2], fresh_stats little 24))
  /\ (length [1; 2] < 3)%nat
  /\ sc_decode_block ([0x03; 1; 2], fresh_stats little 24)
     = (Ok true, ([], tally 0 (fresh_stats little 24)))
  /\ (forall e, fst (sc_decode_block ([0x03; 1; 2], fresh_stats little 24)) <> Raise e).
Proof.
  split; [reflexivity |]. split; [simpl; lia |].
  split; [reflexivity |]. intros e. discriminate.
Qed.

(** C3 (amended). When the head byte(s) of a block on a byte stream
    declare a payload of [max(1, n) * k] bytes and that many bytes remain,
    the decoder advances the stream past exactly those bytes.  When fewer
    remain the call does not fail: it consumes what is left, tallies the
    block and returns [True]; the scan then ends in the next round, where
    reading a head byte raises [StopIteration]. *)
Theorem sc_decode_block_skips_payload
    (head : Z) (s s1 : list Z) (st : Stats) (n k : Z) :
  Forall is_byte (head :: s) ->
  head <> 0 ->
  block_kind head (s, st) = (Ok (n, k), (s1, st)) ->
  (forall payload rest,
      s1 = payload ++ rest ->
      Z.of_nat (length payload) = Z.max 1 n * k ->
      sc_decode_block (head :: s, st) = (Ok true, (rest, tally n st)))
  /\ (Z.of_nat (length s1) < Z.max 1 n * k ->
      sc_decode_block (head :: s, st) = (Ok true, ([], tally n st))
      /\ forall fuel,
          block_loop (S fuel) ([], tally n st)
          = (Raise StopIteration, ([], tally n st))).
Proof.
  intros Hb Hne Hkind.
  pose proof (block_kind_size _ _ _ _ _ _ _ Hb Hne Hkind) as Hsize.
  assert (Hmax : 0 <= Z.max 1 n * k <= sys_maxsize)
    by (rewrite sys_maxsize_val; lia).
  assert (Hstep := sc_decode_block_step _ _ _ _ _ _ _ Hne Hkind Hmax).
  split.
  - intros payload rest -> Hlen. rewrite Hstep. rewrite <- Hlen.
    rewrite Nat2Z.id. rewrite drop_app_length. reflexivity.
  - intros Hshort. split.
    + rewrite Hstep. rewrite drop_ge by lia. reflexivity.
    + intros fuel. reflexivity.
Qed.

Lemma sc_decode_block_skips_payload_witness :
  sc_decode_block ([0xc2; 2; 1; 2; 3], fresh_stats little 0)
  = (Ok true, ([], tally 2 (fresh_stats little 0))).
Proof.
  assert (Hb : Forall is_byte [0xc2; 2; 1; 2; 3]) by byte_list.
  destruct (sc_decode_block_skips_payload 0xc2 [2; 1; 2; 3] [1; 2; 3]
              (fresh_stats little 0) 2 2 Hb ltac:(lia) eq_refl) as [_ Hshort].
  destruct Hshort as [Heq _]; [vm_compute; reflexivity | exact Heq].
Defined.

(** ** The block loop and [sc_stats] *)

Lemma sc_decode_block_tallies (s s' : list Z) (st st' : Stats) :
  sc_decode_block (s, st) = (Ok true, (s', st')) ->
  exists n, st' = tally n st.
Proof.
  destruct s as [| head s]; [discriminate |].
  destruct (Z.eq_dec head 0) as [-> | Hne]; [discriminate |].
  rewrite sc_decode_block_cons by exact Hne.
  destruct (block_kind head (s, st)) as [[[n k] | e |] [s1 st1]] eqn:Hkind;
    try discriminate.
  apply block_kind_state in Hkind as [-> _].
  destruct (consume (Z.max 1 n * k) s1) as [[u | e |] s2]; try discriminate.
  intros [= _ <-]. exists n. reflexivity.
Qed.

Lemma sc_decode_block_returns (x : scan_state) :
  fst (sc_decode_block x) <> OutOfFuel.
Proof.
  destruct x as [[| head s] st]; [discriminate |].
  destruct (Z.eq_dec head 0) as [-> | Hne]; [discriminate |].
  rewrite sc_decode_block_cons by exact Hne.
  unfold block_kind.
  destruct (head <=? 0x80);
    [| destruct ((0xa0 <=? head) && (head <? 0xc0));
       [| destruct ((0xc2 <=? head) && (head <=? 0xc4));
          [destruct s as [| c s0] |]]];
    try discriminate;
    simpl; unfold consume;
    match goal with
    | |- context [(?a <? 0) || (sys_maxsize <? ?a)] =>
        destruct ((a <? 0) || (sys_maxsize <? a)); discriminate
    end.
Qed.

(** The loop follows a scan that reaches the stop byte, as soon as it is
    given one round per item of the stream. *)
Lemma block_loop_scans (s s' : scan_state) :
  scans_to_stop s s' ->
  forall fuel, (length (fst s) <= fuel)%nat ->
  block_loop fuel s = (Ok tt, s').
Proof.
  induction 1 as [rest st | [s st] [s1 st1] s' Hblock Hscan IH]; intros fuel Hfuel.
  - destruct fuel as [| fuel]; [simpl in Hfuel; lia | reflexivity].
  - pose proof (sc_decode_block_progress _ _ _ _ Hblock) as Hlt.
    destruct fuel as [| fuel]; [simpl in Hfuel; lia |].
    simpl block_loop. unfold bind. rewrite Hblock.
    apply IH. simpl in *. lia.
Qed.

(** With more rounds than the stream has items the loop never runs out of
    fuel: the model of the [while] loop is total. *)
Lemma block_loop_enough_fuel (fuel : nat) (s : list Z) (st : Stats) :
  (length s < fuel)%nat ->
  fst (block_loop fuel (s, st)) <> OutOfFuel.
Proof.
  revert s st. induction fuel as [| fuel IH]; intros s st Hfuel; [lia |].
  simpl block_loop. unfold bind.
  pose proof (sc_decode_block_returns (s, st)) as Hret.
  destruct (sc_decode_block (s, st)) as [[[|] | e |] [s1 st1]] eqn:Hblock.
  - apply IH. apply sc_decode_block_progress in Hblock. lia.
  - discriminate.
  - discriminate.
  - contradiction.
Qed.

Lemma scans_to_stop_header_fields (s s' : scan_state) :
  scans_to_stop s s' ->
  endian (snd s') = endian (snd s) /\ nbits (snd s') = nbits (snd s).
Proof.
  induction 1 as [rest st | [s st] [s1 st1] s' Hblock Hscan IH].
  - split; reflexivity.
  - apply sc_decode_block_tallies in Hblock as [n ->].
    destruct IH as [IHe IHn]. simpl in *. split; assumption.
Qed.

Lemma sc_stats_unfold (s : list Z) :
  sc_stats s
  = match sc_decode_header s with
    | (Ok (e, n), s1) =>
        match block_loop (S (length s1)) (s1, fresh_stats e n) with
        | (Ok _, (s2, st)) =>
            match s2 with
            | [] => (Ok st, [])
            | _ :: s3 => (Raise AssertionError, s3)
            end
        | (Raise ex, (s2, _)) => (Raise ex, s2)
        | (OutOfFuel, (s2, _)) => (OutOfFuel, s2)
        end
    | (Raise ex, s1) => (Raise ex, s1)
    | (OutOfFuel, s1) => (OutOfFuel, s1)
    end.
Proof.
  unfold sc_stats. unfold bind at 1.
  destruct (sc_decode_header s) as [[[e n] | ex |] s1]; try reflexivity.
  unfold bind, with_stats, fresh_stats.
  destruct (block_loop (S (length s1)) (s1, mkStats e n ∅))
    as [[[] | ex |] [s2 st]]; try reflexivity.
  destruct s2; reflexivity.
Qed.

Lemma sc_stats_scans (s s1 rest : list Z) (e : endianness) (n : Z) (st : Stats) :
  sc_decode_header s = (Ok (e, n), s1) ->
  scans_to_stop (s1, fresh_stats e n) (rest, st) ->
  sc_stats s
  = match rest with
    | [] => (Ok st, [])
    | _ :: rest' => (Raise AssertionError, rest')
    end.
Proof.
  intros Hhdr Hscan. rewrite sc_stats_unfold, Hhdr.
  rewrite (block_loop_scans _ _ Hscan) by (simpl; lia).
  reflexivity.
Qed.

Lemma read_n_loop_returns (cnt : nat) (j i : Z) (s : list Z) :
  fst (read_n_loop cnt j i s) <> OutOfFuel.
Proof.
  revert j i s. induction cnt as [| cnt IH]; intros j i s; [discriminate |].
  destruct s as [| b s]; [discriminate |].
  simpl. unfold bind at 1. simpl. apply IH.
Qed.

Lemma sc_decode_header_returns (s : list Z) :
  fst (sc_decode_header s) <> OutOfFuel.
Proof.
  destruct s as [| head s]; [discriminate |].
  rewrite sc_decode_header_cons.
  destruct (truthy (Z.land head 0xe0)); [discriminate |].
  unfold read_n, bind.
  pose proof (read_n_loop_returns (Z.to_nat (Z.land head 0x0f)) 0 0 s) as Hret.
  destruct (read_n_loop (Z.to_nat (Z.land head 0x0f)) 0 0 s) as [[i | ex |] s'];
    [destruct (i <? 0); discriminate | discriminate | contradiction].
Qed.

(** [sc_stats] always returns a dictionary or raises: the fuel it gives
    the loop is never exhausted. *)
Lemma sc_stats_returns (s : list Z) : fst (sc_stats s) <> OutOfFuel.
Proof.
  rewrite sc_stats_unfold.
  pose proof (sc_decode_header_returns s) as Hhdr.
  destruct (sc_decode_header s) as [[[e n] | ex |] s1];
    [| discriminate | contradiction].
  pose proof (block_loop_enough_fuel (S (length s1)) s1 (fresh_stats e n)
                ltac:(lia)) as Hloop.
  destruct (block_loop (S (length s1)) (s1, fresh_stats e n))
    as [[[] | ex |] [s2 st]]; [| discriminate | contradiction].
  destruct s2; discriminate.
Qed.

(** C8. Once the header is decoded and the block loop has read the stop
    byte, the scanner looks for one more item: if the stream still holds
    one the scan fails with the assertion error (trailing data), and
    otherwise it returns the dictionary with the decoded endianness and
    [nbits] and the block counts tallied by the loop. *)
Theorem sc_stats_after_stop
    (s s1 rest : list Z) (e : endianness) (n : Z) (st : Stats) :
  sc_decode_header s = (Ok (e, n), s1) ->
  scans_to_stop (s1, fresh_stats e n) (rest, st) ->
  (rest = [] -> sc_stats s = (Ok st, []))
  /\ (forall b rest', rest = b :: rest' -> sc_stats s = (Raise AssertionError, rest'))
  /\ endian st = e /\ nbits st = n.
Proof.
  intros Hhdr Hscan.
  pose proof (sc_stats_scans _ _ _ _ _ _ Hhdr Hscan) as Hstats.
  destruct (scans_to_stop_header_fields _ _ Hscan) as [He Hn]. simpl in He, Hn.
  repeat split; try assumption.
  - intros ->. exact Hstats.
  - intros b rest' ->. exact Hstats.
Qed.

Lemma sc_stats_after_stop_witness :
  sc_stats [0x02; 0x10; 0x27; 0x03; 1; 2; 3; 0]
  = (Ok (tally 0 (fresh_stats little 10000)), [])
  /\ sc_stats [0x02; 0x10; 0x27; 0x03; 1; 2; 3; 0; 9]
     = (Raise AssertionError, []).
Proof.
  split.
  - destruct (sc_stats_after_stop
                [0x02; 0x10; 0x27; 0x03; 1; 2; 3; 0] [0x03; 1; 2; 3; 0] []
                little 10000 (tally 0 (fresh_stats little 10000)))
      as (Hclean & _).
    + reflexivity.
    + apply (scan_block _ ([0], tally 0 (fresh_stats little 10000)));
        [reflexivity | apply scan_stop].
    + apply Hclean. reflexivity.
  - destruct (sc_stats_after_stop
                [0x02; 0x10; 0x27; 0x03; 1; 2; 3; 0; 9] [0x03; 1; 2; 3; 0; 9] [9]
                little 10000 (tally 0 (fresh_stats little 10000)))
      as (_ & Htrail & _).
    + reflexivity.
    + apply (scan_block _ ([0; 9], tally 0 (fresh_stats little 10000)));
        [reflexivity | apply scan_stop].
    + apply (Htrail 9 []). reflexivity.
Defined.

(** ** The range of the declared length *)

Lemma le_bytes_length (L : nat) (v : Z) : length (le_bytes L v) = L.
Proof.
  revert v. induction L as [| L IH]; intros v; simpl; [| rewrite IH]; reflexivity.
Qed.

Lemma le_bytes_are_bytes (L : nat) (v : Z) : Forall is_byte (le_bytes L v).
Proof.
  revert v. induction L as [| L IH]; intros v; simpl.
  - apply List.Forall_nil.
  - apply List.Forall_cons; [| apply IH].
    unfold is_byte. pose proof (Z.mod_pos_bound v 256). lia.
Qed.

Lemma le_value_from_le_bytes (L : nat) (j v : Z) :
  0 <= j ->
  le_value_from j (le_bytes L v) = 2 ^ (8 * j) * (v mod 2 ^ (8 * Z.of_nat L)).
Proof.
  revert j v. induction L as [| L IH]; intros j v Hj.
  - simpl. rewrite Z.mod_1_r. lia.
  - simpl le_bytes. simpl le_value_from.
    rewrite IH by lia. rewrite Z.shiftl_mul_pow2 by lia.
    rewrite pow2_next_byte by lia.
    replace (8 * Z.of_nat (S L)) with (8 + 8 * Z.of_nat L) by lia.
    rewrite Z.pow_add_r by lia. change (2 ^ 8) with 256.
    assert (Hpos : 0 < 2 ^ (8 * Z.of_nat L)) by (apply Z.pow_pos_nonneg; lia).
    rewrite (Z.rem_mul_r v 256 (2 ^ (8 * Z.of_nat L))) by lia.
    ring.
Qed.

Lemma le_value_le_bytes (L : nat) (v : Z) :
  0 <= v < 2 ^ (8 * Z.of_nat L) -> le_value (le_bytes L v) = v.
Proof.
  intros Hv. unfold le_value. rewrite le_value_from_le_bytes by lia.
  rewrite Z.mod_small by exact Hv. change (2 ^ (8 * 0)) with 1. lia.
Qed.

(** The header byte built from a bit-order flag and a length [L <= 15]. *)
Lemma header_byte_fields (L : nat) (flag : bool) :
  (L <= 15)%nat ->
  let head := (if flag then 0x10 else 0) + Z.of_nat L in
  Z.land head 0xe0 = 0
  /\ Z.land head 0x0f = Z.of_nat L
  /\ Z.testbit head 4 = flag.
Proof.
  intros HL.
  do 16 (destruct L as [| L];
         [destruct flag; vm_compute; repeat split; reflexivity |]).
  lia.
Qed.

Lemma sc_decode_header_bytes (head : Z) (bytes rest : list Z) :
  Z.land head 0xe0 = 0 ->
  Z.of_nat (length bytes) = Z.land head 0x0f ->
  Forall is_byte bytes ->
  sc_decode_header (head :: bytes ++ rest)
  = (Ok (if Z.testbit head 4 then big else little, le_value bytes), rest).
Proof.
  intros Hbits Hlen Hb. rewrite sc_decode_header_cons.
  unfold truthy. rewrite Hbits. simpl negb. cbv iota.
  rewrite read_n_exact by (try assumption; lia). reflexivity.
Qed.

(** C10. Header decoding bounds the declared length by the length nibble
    only: for every [L] in 0..15 and any [L] byte values it returns their
    exact little-endian integer, which is below [2^(8*L)]; and every value
    below [2^120], written on 15 length bytes, is accepted and reported
    unchanged as [nbits] by [sc_stats], also above the 64-bit range. *)
Theorem header_length_unbounded :
  (forall (L : nat) (flag : bool) (bytes rest : list Z),
      (L <= 15)%nat -> length bytes = L -> Forall is_byte bytes ->
      sc_decode_header ((if flag then 0x10 else 0) + Z.of_nat L :: bytes ++ rest)
      = (Ok (if flag then big else little, le_value bytes), rest)
      /\ 0 <= le_value bytes < 2 ^ (8 * Z.of_nat L))
  /\ (forall v : Z,
      0 <= v < 2 ^ 120 ->
      sc_stats (0x0f :: le_bytes 15 v ++ [0]) = (Ok (fresh_stats little v), [])).
Proof.
  split.
  - intros L flag bytes rest HL Hlen Hb.
    destruct (header_byte_fields L flag HL) as (Hbits & Hnib & Hflag).
    split.
    + rewrite sc_decode_header_bytes by (try assumption; lia).
      rewrite Hflag. reflexivity.
    + destruct (le_value_from_bounds bytes 0 ltac:(lia) Hb) as [H0 H1].
      fold (le_value bytes) in H0, H1. rewrite Hlen in H1.
      change (2 ^ (8 * 0)) with 1 in H1.
      replace (8 * (0 + Z.of_nat L)) with (8 * Z.of_nat L) in H1 by lia. lia.
  - intros v Hv.
    apply (sc_stats_scans _ [0] [] little v (fresh_stats little v)).
    + rewrite (sc_decode_header_bytes 0x0f (le_bytes 15 v) [0]).
      * rewrite le_value_le_bytes by exact Hv. reflexivity.
      * reflexivity.
      * rewrite le_bytes_length. reflexivity.
      * apply le_bytes_are_bytes.
    + apply scan_stop.
Qed.

Lemma header_length_unbounded_witness :
  2 ^ 64 <= 2 ^ 120 - 1
  /\ sc_stats (0x0f :: le_bytes 15 (2 ^ 120 - 1) ++ [0])
     = (Ok (fresh_stats little (2 ^ 120 - 1)), [])
  /\ sc_decode_header (0x10 + 2 :: [0x10; 0x27] ++ [0])
     = (Ok (big, le_value [0x10; 0x27]), [0]).
Proof.
  destruct header_length_unbounded as [Hhdr Hstats].
  split; [vm_compute; discriminate |].
  split.
  - apply Hstats. split; vm_compute; [discriminate | reflexivity].
  - apply (Hhdr 2%nat true [0x10; 0x27] [0]); [lia | reflexivity | byte_list].
Defined.

(** * Further properties of the scanner *)

(** ** What each function does to the stream *)

Lemma read_n_loop_spec (cnt : nat) (j i : Z) (s : list Z) :
  read_n_loop cnt j i s
  = if decide (cnt <= length s)%nat
    then (Ok (lor_bytes j i (take cnt s)), drop cnt s)
    else (Raise StopIteration, []).
Proof.
  revert j i s. induction cnt as [| cnt IH]; intros j i s.
  - rewrite decide_True by lia. reflexivity.
  - destruct s as [| b s].
    + rewrite decide_False by (simpl; lia). reflexivity.
    + destruct (decide (S cnt <= length (b :: s))%nat) as [Hle | Hgt];
        simpl in Hle || simpl in Hgt;
        simpl read_n_loop; unfold bind at 1; simpl next; cbv beta iota;
        rewrite IH.
      * rewrite decide_True by lia. reflexivity.
      * rewrite decide_False by lia. reflexivity.
Qed.

Lemma sc_decode_header_spec (head : Z) (s : list Z) :
  Z.land head 0xe0 = 0 ->
  let L := Z.to_nat (Z.land head 0x0f) in
  let v := lor_bytes 0 0 (take L s) in
  sc_decode_header (head :: s)
  = if decide (L <= length s)%nat
    then if v <? 0
         then (Raise (NegativeValue (Z.land head 0x0f) v), drop L s)
         else (Ok (if Z.testbit head 4 then big else little, v), drop L s)
    else (Raise StopIteration, []).
Proof.
  intros Hbits L v. rewrite sc_decode_header_cons.
  unfold truthy. rewrite Hbits. simpl negb. cbv iota.
  unfold read_n, bind. rewrite read_n_loop_spec. fold L.
  destruct (decide (L <= length s)%nat); [| reflexivity].
  fold v. destruct (v <? 0); reflexivity.
Qed.

Lemma sc_decode_header_ok_inv (s s1 : list Z) (e : endianness) (n : Z) :
  sc_decode_header s = (Ok (e, n), s1) ->
  exists head s0 L,
    s = head :: s0 /\ Z.land head 0xe0 = 0
    /\ L = Z.to_nat (Z.land head 0x0f) /\ (L <= length s0)%nat
    /\ s1 = drop L s0
    /\ n = lor_bytes 0 0 (take L s0) /\ 0 <= n
    /\ e = (if Z.testbit head 4 then big else little).
Proof.
  destruct s as [| head s0]; [discriminate |].
  destruct (Z.eq_dec (Z.land head 0xe0) 0) as [Hbits | Hbits].
  - rewrite sc_decode_header_spec by exact Hbits. cbv zeta.
    destruct (decide (Z.to_nat (Z.land head 0x0f) <= length s0)%nat) as [Hlen |];
      [| discriminate].
    destruct (Z.ltb_spec (lor_bytes 0 0 (take (Z.to_nat (Z.land head 0x0f)) s0)) 0);
      [discriminate |].
    intros [= <- <- <-].
    exists head, s0, (Z.to_nat (Z.land head 0x0f)). repeat split; auto.
  - rewrite sc_decode_header_cons. unfold truthy.
    destruct (Z.eqb_spec (Z.land head 0xe0) 0); [contradiction | discriminate].
Qed.

Lemma block_kind_stream (head : Z) (s s1 : list Z) (st st1 : Stats) (n k : Z) :
  block_kind head (s, st) = (Ok (n, k), (s1, st1)) ->
  st1 = st /\ (s1 = s \/ s = k :: s1) /\ 0 <= n <= 4.
Proof.
  unfold block_kind.
  destruct (Z.leb_spec head 0x80).
  { intros [= <- <- <- <-]. repeat split; auto; lia. }
  destruct (Z.leb_spec 0xa0 head), (Z.ltb_spec head 0xc0); simpl andb; cbv iota;
    try (intros [= <- <- <- <-]; repeat split; auto; lia);
    destruct (Z.leb_spec 0xc2 head), (Z.leb_spec head 0xc4); simpl andb; cbv iota;
    try discriminate.
  all: destruct s as [| c s0]; [discriminate |];
    intros [= <- <- <- <-]; repeat split; auto; lia.
Qed.

(** The shape of a round that returns [True]. *)
Lemma sc_decode_block_true_inv (s s' : list Z) (st st' : Stats) :
  sc_decode_block (s, st) = (Ok true, (s', st')) ->
  exists head s0 s1 n k,
    s = head :: s0 /\ head <> 0
    /\ block_kind head (s0, st) = (Ok (n, k), (s1, st))
    /\ 0 <= Z.max 1 n * k <= sys_maxsize
    /\ s' = drop (Z.to_nat (Z.max 1 n * k)) s1
    /\ st' = tally n st.
Proof.
  destruct s as [| head s0]; [discriminate |].
  destruct (Z.eq_dec head 0) as [-> | Hne]; [discriminate |].
  rewrite sc_decode_block_cons by exact Hne.
  destruct (block_kind head (s0, st)) as [[[n k] | e |] [s1 st1]] eqn:Hkind;
    try discriminate.
  destruct (block_kind_stream _ _ _ _ _ _ _ Hkind) as (-> & _ & _).
  unfold consume.
  destruct (Z.ltb_spec (Z.max 1 n * k) 0); [discriminate |].
  destruct (Z.ltb_spec sys_maxsize (Z.max 1 n * k)); [discriminate |].
  simpl orb. cbv iota. intros [= <- <-].
  exists head, s0, s1, n, k. repeat split; auto.
Qed.

Lemma sc_decode_block_false_inv (s : list Z) (st : Stats) (x : scan_state) :
  sc_decode_block (s, st) = (Ok false, x) ->
  exists rest, s = 0 :: rest /\ x = (rest, st).
Proof.
  destruct s as [| head s0]; [discriminate |].
  destruct (Z.eq_dec head 0) as [-> | Hne].
  - intros [= <-]. exists s0. split; reflexivity.
  - rewrite sc_decode_block_cons by exact Hne.
    destruct (block_kind head (s0, st)) as [[[n k] | e |] [s1 st1]];
      try discriminate.
    destruct (consume (Z.max 1 n * k) s1) as [[u | e |] s2]; discriminate.
Qed.

(** A loop that ends normally has read blocks up to a stop byte. *)
Lemma block_loop_ok_inv (fuel : nat) (s s' : scan_state) :
  block_loop fuel s = (Ok tt, s') -> scans_to_stop s s'.
Proof.
  revert s. induction fuel as [| fuel IH]; intros [s st]; [discriminate |].
  simpl block_loop. unfold bind.
  destruct (sc_decode_block (s, st)) as [[[|] | e |] s1] eqn:Hblock;
    try discriminate.
  - intros Hloop. apply (scan_block _ s1); [exact Hblock | apply IH; exact Hloop].
  - intros [= <-].
    apply sc_decode_block_false_inv in Hblock as (rest & -> & ->).
    apply scan_stop.
Qed.

Lemma sc_stats_ok_inv (s rest : list Z) (st : Stats) :
  sc_stats s = (Ok st, rest) ->
  rest = []
  /\ exists e n s1,
      sc_decode_header s = (Ok (e, n), s1)
      /\ scans_to_stop (s1, fresh_stats e n) ([], st).
Proof.
  rewrite sc_stats_unfold.
  destruct (sc_decode_header s) as [[[e n] | ex |] s1] eqn:Hhdr; try discriminate.
  destruct (block_loop (S (length s1)) (s1, fresh_stats e n))
    as [[[] | ex |] [s2 st2]] eqn:Hloop; try discriminate.
  destruct s2 as [| b s2]; [| discriminate].
  intros [= <- <-]. split; [reflexivity |].
  exists e, n, s1. split; [reflexivity |].
  apply (block_loop_ok_inv _ _ _ Hloop).
Qed.

(** ** The shape of an accepted stream *)

Lemma last_drop_Some (k : nat) (l : list Z) (x : Z) :
  last (drop k l) = Some x -> last l = Some x.
Proof.
  intros H. rewrite <- (take_drop k l). rewrite last_app, H. reflexivity.
Qed.

Lemma sc_decode_block_true_last (s s' : list Z) (st st' : Stats) (x : Z) :
  sc_decode_block (s, st) = (Ok true, (s', st')) ->
  last s' = Some x -> last s = Some x.
Proof.
  intros Hblock Hlast.
  apply sc_decode_block_true_inv in Hblock
    as (head & s0 & s1 & n & k & -> & _ & Hkind & _ & -> & _).
  apply last_drop_Some in Hlast.
  destruct (block_kind_stream _ _ _ _ _ _ _ Hkind) as (_ & [-> | ->] & _).
  - rewrite last_cons, Hlast. reflexivity.
  - rewrite !last_cons, Hlast. reflexivity.
Qed.

Lemma scans_to_stop_last (x y : scan_state) :
  scans_to_stop x y -> fst y = [] -> last (fst x) = Some 0.
Proof.
  induction 1 as [rest st | [s st] [s1 st1] s' Hblock Hscan IH]; simpl; intros Hy.
  - subst rest. reflexivity.
  - apply (sc_decode_block_true_last _ _ _ _ _ Hblock). apply IH. exact Hy.
Qed.

(** X1. A scan that returns has consumed the whole stream, whose last item
    is the stop byte, and reports the bit order and the length that the
    header decodes to. *)
Theorem sc_stats_ok_whole_stream (s rest : list Z) (st : Stats) :
  sc_stats s = (Ok st, rest) ->
  rest = []
  /\ last s = Some 0
  /\ exists s1, sc_decode_header s = (Ok (endian st, nbits st), s1).
Proof.
  intros Hstats.
  apply sc_stats_ok_inv in Hstats as (-> & e & n & s1 & Hhdr & Hscan).
  split; [reflexivity |].
  pose proof (scans_to_stop_last _ _ Hscan eq_refl) as Hlast. simpl in Hlast.
  destruct (scans_to_stop_header_fields _ _ Hscan) as [He Hn]. simpl in He, Hn.
  split.
  - destruct (sc_decode_header_ok_inv _ _ _ _ Hhdr)
      as (head & s0 & L & -> & _ & _ & _ & -> & _).
    apply last_drop_Some in Hlast. rewrite last_cons, Hlast. reflexivity.
  - exists s1. rewrite He, Hn. exact Hhdr.
Qed.

Lemma sc_stats_ok_whole_stream_witness :
  last [0x12; 0x10; 0x27; 0xa2; 7; 8; 0] = Some 0
  /\ exists s1,
      sc_decode_header [0x12; 0x10; 0x27; 0xa2; 7; 8; 0] = (Ok (big, 10000), s1).
Proof.
  destruct (sc_stats_ok_whole_stream [0x12; 0x10; 0x27; 0xa2; 7; 8; 0] []
              (tally 1 (fresh_stats big 10000)) eq_refl) as (_ & Hlast & Hhdr).
  split; [exact Hlast | exact Hhdr].
Defined.

(** ** Data after the stop byte *)

Lemma sc_decode_header_app (s s1 t : list Z) (r : endianness * Z) :
  sc_decode_header s = (Ok r, s1) ->
  sc_decode_header (s ++ t) = (Ok r, s1 ++ t).
Proof.
  destruct r as [e n]. intros Hhdr.
  destruct (sc_decode_header_ok_inv _ _ _ _ Hhdr)
    as (head & s0 & L & -> & Hbits & HL & Hlen & -> & Hn & Hpos & He).
  rewrite <- app_comm_cons. rewrite sc_decode_header_spec by exact Hbits.
  cbv zeta. rewrite <- HL.
  rewrite decide_True by (rewrite length_app; lia).
  rewrite take_app_le, drop_app_le by exact Hlen. rewrite <- Hn.
  destruct (Z.ltb_spec n 0); [lia |]. rewrite He. reflexivity.
Qed.

Lemma block_kind_app (head : Z) (s s1 t : list Z) (st st1 : Stats) (nk : Z * Z) :
  block_kind head (s, st) = (Ok nk, (s1, st1)) ->
  block_kind head (s ++ t, st) = (Ok nk, (s1 ++ t, st1)).
Proof.
  unfold block_kind.
  destruct (head <=? 0x80); [intros [= <- <- <-]; reflexivity |].
  destruct ((0xa0 <=? head) && (head <? 0xc0)); [intros [= <- <- <-]; reflexivity |].
  destruct ((0xc2 <=? head) && (head <=? 0xc4)); [| discriminate].
  destruct s as [| c s0]; [discriminate |].
  intros [= <- <- <-]. reflexivity.
Qed.

Lemma sc_decode_block_app (s s' t : list Z) (st st' : Stats) :
  sc_decode_block (s, st) = (Ok true, (s', st')) ->
  s' <> [] ->
  sc_decode_block (s ++ t, st) = (Ok true, (s' ++ t, st')).
Proof.
  intros Hblock Hne.
  apply sc_decode_block_true_inv in Hblock
    as (head & s0 & s1 & n & k & -> & Hhead & Hkind & Hsize & -> & ->).
  rewrite <- app_comm_cons.
  rewrite (sc_decode_block_step _ _ _ _ _ _ _ Hhead (block_kind_app _ _ _ t _ _ _ Hkind) Hsize).
  rewrite drop_app_le; [reflexivity |].
  destruct (le_lt_dec (Z.to_nat (Z.max 1 n * k)) (length s1)) as [Hle | Hgt];
    [exact Hle |].
  exfalso. apply Hne. apply drop_ge. lia.
Qed.

Lemma scans_to_stop_nonempty (x y : scan_state) :
  scans_to_stop x y -> fst x <> [].
Proof.
  destruct 1 as [rest st | [s st] s1 s' Hblock _]; simpl; [discriminate |].
  intros ->. discriminate.
Qed.

Lemma scans_to_stop_app (x y : scan_state) (t : list Z) :
  scans_to_stop x y ->
  scans_to_stop (fst x ++ t, snd x) (fst y ++ t, snd y).
Proof.
  induction 1 as [rest st | [s st] [s1 st1] s' Hblock Hscan IH]; simpl.
  - apply scan_stop.
  - apply (scan_block _ (s1 ++ t, st1)); [| exact IH].
    apply sc_decode_block_app; [exact Hblock |].
    apply (scans_to_stop_nonempty _ _ Hscan).
Qed.

(** X2. An accepted stream is self-delimiting: with any further item
    appended the scan reads the same header and blocks, finds the item
    after the stop byte and fails on [assert stop], having consumed that
    one item. *)
Theorem sc_stats_appended_data (s rest t : list Z) (st : Stats) (b : Z) :
  sc_stats s = (Ok st, rest) ->
  sc_stats (s ++ b :: t) = (Raise AssertionError, t).
Proof.
  intros Hstats.
  apply sc_stats_ok_inv in Hstats as (_ & e & n & s1 & Hhdr & Hscan).
  apply (sc_stats_scans _ (s1 ++ b :: t) (b :: t) e n st).
  - apply sc_decode_header_app. exact Hhdr.
  - apply (scans_to_stop_app _ _ (b :: t) Hscan).
Qed.

Lemma sc_stats_appended_data_witness :
  sc_stats ([0x12; 0x10; 0x27; 0xa2; 7; 8; 0] ++ [0x12; 0])
  = (Raise AssertionError, [0]).
Proof.
  apply (sc_stats_appended_data [0x12; 0x10; 0x27; 0xa2; 7; 8; 0] [] [0]
           (tally 1 (fresh_stats big 10000)) 0x12).
  reflexivity.
Defined.

(** ** Truncated streams *)

Lemma sc_decode_header_truncated (p t s1 : list Z) (r : endianness * Z) :
  sc_decode_header (p ++ t) = (Ok r, s1) ->
  sc_decode_header p = (Raise StopIteration, [])
  \/ exists p1, sc_decode_header p = (Ok r, p1) /\ s1 = p1 ++ t.
Proof.
  destruct r as [e n]. destruct p as [| head p0]; [left; reflexivity |].
  rewrite <- app_comm_cons. intros Hhdr.
  destruct (sc_decode_header_ok_inv _ _ _ _ Hhdr)
    as (h & s0 & L & [= <- <-] & Hbits & HL & Hlen & -> & Hn & Hpos & He).
  rewrite sc_decode_header_spec by exact Hbits. cbv zeta. rewrite <- HL.
  destruct (decide (L <= length p0)%nat) as [Hle | Hgt]; [right | left; reflexivity].
  rewrite take_app_le in Hn by exact Hle. rewrite <- Hn.
  destruct (Z.ltb_spec n 0); [lia |].
  exists (drop L p0). rewrite He. split; [reflexivity |].
  apply drop_app_le. exact Hle.
Qed.

Lemma block_kind_truncated (head : Z) (p t q : list Z) (st st1 : Stats) (nk : Z * Z) :
  block_kind head (p ++ t, st) = (Ok nk, (q, st1)) ->
  block_kind head (p, st) = (Raise StopIteration, ([], st))
  \/ exists q0, block_kind head (p, st) = (Ok nk, (q0, st1)) /\ q = q0 ++ t.
Proof.
  unfold block_kind.
  destruct (head <=? 0x80).
  { intros [= <- <- <-]. right. exists p. split; reflexivity. }
  destruct ((0xa0 <=? head) && (head <? 0xc0)).
  { intros [= <- <- <-]. right. exists p. split; reflexivity. }
  destruct ((0xc2 <=? head) && (head <=? 0xc4)); [| discriminate].
  destruct p as [| c p0]; [left; reflexivity |].
  intros [= <- <- <-]. right. exists p0. split; reflexivity.
Qed.

Lemma sc_decode_block_truncated (p t s1 : list Z) (st st1 : Stats) :
  sc_decode_block (p ++ t, st) = (Ok true, (s1, st1)) ->
  sc_decode_block (p, st) = (Raise StopIteration, ([], st))
  \/ exists p1,
      sc_decode_block (p, st) = (Ok true, (p1, st1))
      /\ (s1 = p1 ++ t \/ p1 = []).
Proof.
  destruct p as [| head p0]; [left; reflexivity |].
  rewrite <- app_comm_cons. intros Hblock.
  apply sc_decode_block_true_inv in Hblock
    as (h & s0 & q & n & k & [= <- <-] & Hhead & Hkind & Hsize & -> & ->).
  destruct (block_kind_truncated _ _ _ _ _ _ _ Hkind)
    as [Hstop | (q0 & Hkind0 & ->)].
  - left. rewrite sc_decode_block_cons by exact Hhead. rewrite Hstop. reflexivity.
  - right. exists (drop (Z.to_nat (Z.max 1 n * k)) q0). split.
    + apply (sc_decode_block_step _ _ _ _ _ _ _ Hhead Hkind0 Hsize).
    + destruct (le_lt_dec (Z.to_nat (Z.max 1 n * k)) (length q0)) as [Hle | Hgt].
      * left. apply drop_app_le. exact Hle.
      * right. apply drop_ge. lia.
Qed.

Lemma block_loop_truncated (x y : scan_state) :
  scans_to_stop x y ->
  forall p t st,
    x = (p ++ t, st) -> fst y = [] -> t <> [] ->
    forall fuel, (length p < fuel)%nat ->
    exists stx, block_loop fuel (p, st) = (Raise StopIteration, ([], stx)).
Proof.
  induction 1 as [rest st0 | [s st0] [s1 st1] s' Hblock Hscan IH];
    intros p t st Hx Hy Ht fuel Hfuel.
  - injection Hx as Hs <-. simpl in Hy. subst rest.
    destruct p as [| b p0].
    + destruct fuel as [| fuel]; [lia |]. exists st0. reflexivity.
    + simpl in Hs. injection Hs as _ Hnil. symmetry in Hnil.
      apply app_eq_nil in Hnil as [_ ->]. contradiction.
  - injection Hx as -> <-.
    destruct fuel as [| fuel]; [lia |].
    simpl block_loop. unfold bind.
    destruct (sc_decode_block_truncated _ _ _ _ _ Hblock)
      as [Hstop | (p1 & Hblock0 & [-> | ->])].
    + rewrite Hstop. exists st0. reflexivity.
    + rewrite Hblock0.
      apply (IH p1 t st1 eq_refl Hy Ht).
      apply sc_decode_block_progress in Hblock0. lia.
    + rewrite Hblock0.
      pose proof (sc_decode_block_progress _ _ _ _ Hblock0) as Hlt.
      destruct fuel as [| fuel]; [simpl in Hlt; lia |].
      exists st1. reflexivity.
Qed.

(** X3. Cutting an accepted stream short, at any point, makes the scan
    fail with [StopIteration]: no proper prefix of an accepted stream is
    accepted, nor fails in another way. *)
Theorem sc_stats_truncated (p t rest : list Z) (st : Stats) :
  sc_stats (p ++ t) = (Ok st, rest) ->
  t <> [] ->
  sc_stats p = (Raise StopIteration, []).
Proof.
  intros Hstats Ht.
  apply sc_stats_ok_inv in Hstats as (_ & e & n & s1 & Hhdr & Hscan).
  rewrite sc_stats_unfold.
  destruct (sc_decode_header_truncated _ _ _ _ Hhdr) as [-> | (p1 & -> & ->)];
    [reflexivity |].
  destruct (block_loop_truncated _ _ Hscan p1 t (fresh_stats e n) eq_refl eq_refl Ht
              (S (length p1)) ltac:(lia)) as [stx ->].
  reflexivity.
Qed.

Lemma sc_stats_truncated_witness :
  sc_stats [0x12; 0x10; 0x27; 0xa2; 7] = (Raise StopIteration, []).
Proof.
  apply (sc_stats_truncated [0x12; 0x10; 0x27; 0xa2; 7] [8; 0] []
           (tally 1 (fresh_stats big 10000))).
  - reflexivity.
  - discriminate.
Defined.

(** ** Termination of the block loop *)

Lemma block_loop_more_fuel (fuel : nat) (x : scan_state) :
  fst (block_loop fuel x) <> OutOfFuel ->
  block_loop (S fuel) x = block_loop fuel x.
Proof.
  revert x. induction fuel as [| fuel IH]; intros x Hret.
  - exfalso. apply Hret. reflexivity.
  - change (block_loop (S (S fuel)) x)
      with (bind sc_decode_block
              (fun more : bool => if more then block_loop (S fuel) else ret tt) x).
    change (block_loop (S fuel) x)
      with (bind sc_decode_block
              (fun more : bool => if more then block_loop fuel else ret tt) x) in Hret |- *.
    unfold bind in Hret |- *.
    destruct (sc_decode_block x) as [[[|] | e |] x1]; try reflexivity.
    apply IH. exact Hret.
Qed.

(** X4. The [while] loop of [sc_stats] ends on every stream, after at most
    one round per item and one more: the scan returns or raises, and
    allowing the loop more rounds does not change what it does. *)
Theorem sc_stats_loop_terminates (s : list Z) (st : Stats) (extra : nat) :
  fst (sc_stats s) <> OutOfFuel
  /\ fst (block_loop (S (length s)) (s, st)) <> OutOfFuel
  /\ block_loop (extra + S (length s)) (s, st) = block_loop (S (length s)) (s, st).
Proof.
  split; [apply sc_stats_returns |].
  assert (Hret : fst (block_loop (S (length s)) (s, st)) <> OutOfFuel)
    by (apply block_loop_enough_fuel; lia).
  split; [exact Hret |].
  induction extra as [| extra IH]; [reflexivity |].
  change (S extra + S (length s))%nat with (S (extra + S (length s))).
  rewrite block_loop_more_fuel; [exact IH |]. rewrite IH. exact Hret.
Qed.

(** ** The block counts *)

Lemma counter_incr_lookup (c : gmap Z Z) (n m v : Z) :
  counter_incr n c !! m = Some v ->
  (m = n /\ v = counter_get c n + 1) \/ (m <> n /\ c !! m = Some v).
Proof.
  unfold counter_incr. destruct (Z.eq_dec m n) as [-> | Hne].
  - rewrite lookup_insert_eq. intros [= <-]. left. split; reflexivity.
  - rewrite lookup_insert_ne by congruence. intros H. right. split; assumption.
Qed.

Lemma counter_get_lookup (c : gmap Z Z) (m v : Z) :
  c !! m = Some v -> counter_get c m = v.
Proof. unfold counter_get. intros ->. reflexivity. Qed.

(** The keys of the counter are block types, and a key is only present
    with a positive count. *)
Lemma scans_to_stop_block_types (x y : scan_state) :
  scans_to_stop x y ->
  (forall m v, blocks (snd x) !! m = Some v -> 0 <= m <= 4 /\ 1 <= v) ->
  forall m v, blocks (snd y) !! m = Some v -> 0 <= m <= 4 /\ 1 <= v.
Proof.
  induction 1 as [rest st | [s st] [s1 st1] s' Hblock Hscan IH]; simpl;
    intros Hinv; [exact Hinv |].
  apply IH. simpl. intros m v Hm.
  apply sc_decode_block_true_inv in Hblock
    as (head & s0 & q & n & k & _ & _ & Hkind & _ & _ & ->).
  destruct (block_kind_stream _ _ _ _ _ _ _ Hkind) as (_ & _ & Hn).
  simpl in Hm. apply counter_incr_lookup in Hm as [[-> ->] | [_ Hm]].
  - split; [exact Hn |].
    unfold counter_get. destruct (blocks st !! n) as [w |] eqn:Hw; simpl; [| lia].
    destruct (Hinv n w Hw). lia.
  - apply (Hinv m v Hm).
Qed.

(** X5. In the dictionary a scan returns, the keys of ['blocks'] are block
    types 0..4 and every key present has a count of at least 1; a type
    that is absent reads as 0. *)
Theorem sc_stats_block_types (s rest : list Z) (st : Stats) :
  sc_stats s = (Ok st, rest) ->
  forall m,
    (is_Some (blocks st !! m) -> 0 <= m <= 4 /\ 1 <= counter_get (blocks st) m)
    /\ (blocks st !! m = None -> counter_get (blocks st) m = 0)
    /\ 0 <= counter_get (blocks st) m.
Proof.
  intros Hstats m.
  apply sc_stats_ok_inv in Hstats as (_ & e & n & s1 & _ & Hscan).
  assert (Hinv : forall m v, blocks st !! m = Some v -> 0 <= m <= 4 /\ 1 <= v).
  { apply (scans_to_stop_block_types _ _ Hscan). simpl. intros k v Hk.
    rewrite lookup_empty in Hk. discriminate. }
  repeat split.
  - destruct H as [v Hv]. apply (Hinv m v Hv).
  - destruct H as [v Hv]. apply (Hinv m v Hv).
  - destruct H as [v Hv]. rewrite (counter_get_lookup _ _ _ Hv). apply (Hinv m v Hv).
  - intros Hnone. unfold counter_get. rewrite Hnone. reflexivity.
  - unfold counter_get. destruct (blocks st !! m) as [v |] eqn:Hv; simpl; [| lia].
    destruct (Hinv m v Hv). lia.
Qed.

Lemma sc_stats_block_types_witness :
  counter_get (blocks (tally 1 (fresh_stats big 10000))) 7 = 0
  /\ 0 <= counter_get (blocks (tally 1 (fresh_stats big 10000))) 1.
Proof.
  destruct (sc_stats_block_types [0x12; 0x10; 0x27; 0xa2; 7; 8; 0] []
              (tally 1 (fresh_stats big 10000)) eq_refl 7) as (_ & Habsent & _).
  destruct (sc_stats_block_types [0x12; 0x10; 0x27; 0xa2; 7; 8; 0] []
              (tally 1 (fresh_stats big 10000)) eq_refl 1) as (_ & _ & Hpos).
  split; [apply Habsent; reflexivity | exact Hpos].
Defined.

Lemma counter_total_incr (n : Z) (c : gmap Z Z) :
  counter_total (counter_incr n c) = counter_total c + 1.
Proof.
  assert (Hcomm : forall (j1 j2 z1 z2 y : Z), z1 + (z2 + y) = z2 + (z1 + y))
    by (intros; lia).
  unfold counter_incr, counter_get, counter_total.
  destruct (c !! n) as [v |] eqn:Hv; simpl.
  - rewrite <- insert_delete_eq.
    rewrite map_fold_insert_L;
      [| intros; apply Hcomm; assumption | apply lookup_delete_eq].
    rewrite (map_fold_delete_L _ _ n v c);
      [lia | intros; apply Hcomm; assumption | exact Hv].
  - rewrite map_fold_insert_L;
      [lia | intros; apply Hcomm; assumption | exact Hv].
Qed.

Lemma scans_blocks_to_stop (k : nat) (x y : scan_state) :
  scans_blocks k x y -> scans_to_stop x y.
Proof.
  induction 1 as [rest st | k s s1 s' Hblock Hscan IH].
  - apply scan_stop.
  - apply (scan_block _ s1); assumption.
Qed.

Lemma scans_blocks_total (k : nat) (x y : scan_state) :
  scans_blocks k x y ->
  counter_total (blocks (snd y)) = counter_total (blocks (snd x)) + Z.of_nat k
  /\ (k + 1 + length (fst y) <= length (fst x))%nat.
Proof.
  induction 1 as [rest st | k [s st] [s1 st1] s' Hblock Hscan [IHt IHl]]; simpl.
  - split; lia.
  - pose proof (sc_decode_block_progress _ _ _ _ Hblock) as Hlt.
    apply sc_decode_block_tallies in Hblock as [n ->].
    simpl in IHt, IHl. rewrite counter_total_incr in IHt. split; lia.
Qed.

(** X6. When the blocks between the header and the stop byte are [k] in
    number and the stop byte ends the stream, the scan returns a
    dictionary whose [blocks.total()] is [k]; a block takes at least one
    item, so [k] is less than the number of items after the header. *)
Theorem sc_stats_total_blocks
    (s s1 : list Z) (e : endianness) (n : Z) (k : nat) (st : Stats) :
  sc_decode_header s = (Ok (e, n), s1) ->
  scans_blocks k (s1, fresh_stats e n) ([], st) ->
  sc_stats s = (Ok st, [])
  /\ counter_total (blocks st) = Z.of_nat k
  /\ (k < length s1)%nat.
Proof.
  intros Hhdr Hscan. split.
  - apply (sc_stats_scans _ _ _ _ _ _ Hhdr (scans_blocks_to_stop _ _ _ Hscan)).
  - destruct (scans_blocks_total _ _ _ Hscan) as [Ht Hl]. simpl in Ht, Hl.
    unfold counter_total at 2 in Ht. rewrite map_fold_empty in Ht.
    split; lia.
Qed.

Lemma sc_stats_total_blocks_witness :
  sc_stats [0x12; 0x10; 0x27; 0xa2; 7; 8; 0x01; 9; 0]
  = (Ok (tally 0 (tally 1 (fresh_stats big 10000))), [])
  /\ counter_total (blocks (tally 0 (tally 1 (fresh_stats big 10000)))) = 2.
Proof.
  destruct (sc_stats_total_blocks
              [0x12; 0x10; 0x27; 0xa2; 7; 8; 0x01; 9; 0] [0xa2; 7; 8; 0x01; 9; 0]
              big 10000 2 (tally 0 (tally 1 (fresh_stats big 10000))))
    as (Hstats & Htotal & _).
  - reflexivity.
  - apply (scanned_block _ _ ([0x01; 9; 0], tally 1 (fresh_stats big 10000)));
      [reflexivity |].
    apply (scanned_block _ _ ([0], tally 0 (tally 1 (fresh_stats big 10000))));
      [reflexivity |].
    apply scanned_stop.
  - split; [exact Hstats | exact Htotal].
Defined.

(** ** A header that decodes *)

Lemma lor_bytes_le_value (bytes : list Z) :
  Forall is_byte bytes -> lor_bytes 0 0 bytes = le_value bytes.
Proof.
  intros Hb.
  pose proof (read_n_loop_bytes bytes [] 0 0 ltac:(lia) ltac:(simpl; lia) Hb) as Hloop.
  rewrite read_n_loop_spec in Hloop.
  rewrite decide_True in Hloop by (rewrite length_app; lia).
  rewrite take_app_length in Hloop.
  injection Hloop as Hval _. rewrite Hval. unfold le_value. lia.
Qed.

(** X7. Header decoding succeeds only on a well-formed header: the first
    item has its top three bits clear, exactly [L = head & 0x0f <= 15]
    further items are consumed, the length returned is never negative
    (whatever integers the stream yields), and on byte values it is their
    little-endian integer. *)
Theorem sc_decode_header_ok_shape (s s1 : list Z) (e : endianness) (n : Z) :
  sc_decode_header s = (Ok (e, n), s1) ->
  exists head bytes,
    s = head :: bytes ++ s1
    /\ Z.land head 0xe0 = 0
    /\ Z.of_nat (length bytes) = Z.land head 0x0f
    /\ (length bytes <= 15)%nat
    /\ e = (if Z.testbit head 4 then big else little)
    /\ 0 <= n
    /\ (Forall is_byte bytes -> n = le_value bytes).
Proof.
  intros Hhdr.
  destruct (sc_decode_header_ok_inv _ _ _ _ Hhdr)
    as (head & s0 & L & -> & Hbits & HL & Hlen & -> & Hn & Hpos & He).
  pose proof (land_0x0f_range head) as Hrange.
  exists head, (take L s0).
  rewrite take_drop, length_take_le by exact Hlen.
  repeat split; try assumption; try lia.
  intros Hb. rewrite Hn. apply lor_bytes_le_value. exact Hb.
Qed.

Lemma sc_decode_header_ok_shape_witness :
  exists head bytes,
    [0x12; 0x10; 0x27; 0xa2; 7; 8; 0] = head :: bytes ++ [0xa2; 7; 8; 0]
    /\ Z.land head 0xe0 = 0
    /\ Z.of_nat (length bytes) = Z.land head 0x0f
    /\ (length bytes <= 15)%nat
    /\ big = (if Z.testbit head 4 then big else little)
    /\ 0 <= 10000
    /\ (Forall is_byte bytes -> 10000 = le_value bytes).
Proof.
  apply (sc_decode_header_ok_shape
           [0x12; 0x10; 0x27; 0xa2; 7; 8; 0] [0xa2; 7; 8; 0] big 10000).
  reflexivity.
Defined.

(** ** The errors of a scan of bytes *)

Lemma sc_decode_header_bytes_raise (s s1 : list Z) (e : exn) :
  Forall is_byte s ->
  sc_decode_header s = (Raise e, s1) ->
  e = StopIteration \/ exists h, e = InvalidHeader h /\ Z.land h 0xe0 <> 0.
Proof.
  intros Hb. destruct s as [| head s0].
  { intros [= <- _]. left. reflexivity. }
  apply Forall_cons_1 in Hb as [_ Hs0].
  rewrite sc_decode_header_cons. unfold truthy.
  destruct (Z.eqb_spec (Z.land head 0xe0) 0) as [Hbits | Hbits]; simpl negb; cbv iota.
  - destruct (le_lt_dec (Z.to_nat (Z.land head 0x0f)) (length s0)) as [Hle | Hgt].
    + rewrite <- (take_drop (Z.to_nat (Z.land head 0x0f)) s0).
      rewrite read_n_exact; [discriminate | |].
      * rewrite length_take. lia.
      * apply Forall_take. exact Hs0.
    + rewrite read_n_short by exact Hgt. intros [= <- _]. left. reflexivity.
  - intros [= <- _]. right. exists head. split; [reflexivity | exact Hbits].
Qed.

Lemma block_kind_raise_bytes (head : Z) (s q : list Z) (st st1 : Stats) (e : exn) :
  is_byte head ->
  block_kind head (s, st) = (Raise e, (q, st1)) ->
  (e = StopIteration /\ q = [])
  \/ (e = InvalidBlockHead head /\ reserved_head head /\ q = s).
Proof.
  intros [Hh0 Hh1]. unfold block_kind, reserved_head.
  destruct (Z.leb_spec head 0x80); [discriminate |].
  destruct (Z.leb_spec 0xa0 head), (Z.ltb_spec head 0xc0); simpl andb; cbv iota;
    try discriminate;
    destruct (Z.leb_spec 0xc2 head), (Z.leb_spec head 0xc4); simpl andb; cbv iota;
    try (intros [= <- <- _]; right; repeat split; lia).
  all: destruct s as [| c s0]; [| discriminate];
    intros [= <- <- _]; left; split; reflexivity.
Qed.

Lemma block_kind_returns (head : Z) (x : scan_state) :
  fst (block_kind head x) <> OutOfFuel.
Proof.
  destruct x as [s st]. unfold block_kind.
  destruct (head <=? 0x80); [discriminate |].
  destruct ((0xa0 <=? head) && (head <? 0xc0)); [discriminate |].
  destruct ((0xc2 <=? head) && (head <=? 0xc4)); [| discriminate].
  destruct s; discriminate.
Qed.

Lemma sc_decode_block_bytes (s s' : list Z) (st st' : Stats) (r : outcome bool) :
  Forall is_byte s ->
  sc_decode_block (s, st) = (r, (s', st')) ->
  Forall is_byte s'
  /\ match r with
     | Ok _ => True
     | Raise e =>
         e = StopIteration \/ exists h, e = InvalidBlockHead h /\ reserved_head h
     | OutOfFuel => False
     end.
Proof.
  intros Hb. destruct s as [| head s0].
  { intros [= <- <- _]. split; [apply List.Forall_nil | left; reflexivity]. }
  pose proof Hb as Hb'. apply Forall_cons_1 in Hb' as [Hhead Hs0].
  destruct (Z.eq_dec head 0) as [-> | Hne].
  { intros [= <- <- _]. split; [exact Hs0 | exact I]. }
  rewrite sc_decode_block_cons by exact Hne.
  pose proof (block_kind_returns head (s0, st)) as Hret.
  destruct (block_kind head (s0, st)) as [[[n k] | e |] [q st1]] eqn:Hkind.
  - pose proof (block_kind_size _ _ _ _ _ _ _ Hb Hne Hkind) as Hsize.
    rewrite consume_in_range by (rewrite sys_maxsize_val; lia).
    intros [= <- <- _]. split; [| exact I]. apply Forall_drop.
    destruct (block_kind_stream _ _ _ _ _ _ _ Hkind) as (_ & [-> | ->] & _);
      [exact Hs0 |].
    apply Forall_cons_1 in Hs0 as [_ Hq]. exact Hq.
  - intros [= <- <- _].
    destruct (block_kind_raise_bytes _ _ _ _ _ _ Hhead Hkind)
      as [[-> ->] | (-> & Hres & ->)].
    + split; [apply List.Forall_nil | left; reflexivity].
    + split; [exact Hs0 |]. right. exists head. split; [reflexivity | exact Hres].
  - exfalso. apply Hret. reflexivity.
Qed.

Lemma block_loop_bytes_raise (fuel : nat) (s s' : list Z) (st st' : Stats) (e : exn) :
  Forall is_byte s ->
  block_loop fuel (s, st) = (Raise e, (s', st')) ->
  e = StopIteration \/ exists h, e = InvalidBlockHead h /\ reserved_head h.
Proof.
  revert s st. induction fuel as [| fuel IH]; intros s st Hb; [discriminate |].
  simpl block_loop. unfold bind.
  destruct (sc_decode_block (s, st)) as [r [s1 st1]] eqn:Hblock.
  destruct (sc_decode_block_bytes _ _ _ _ _ Hb Hblock) as [Hb1 Hr].
  destruct r as [[|] | e1 |].
  - apply IH. exact Hb1.
  - discriminate.
  - intros [= <- _ _]. exact Hr.
  - contradiction.
Qed.

(** X8. On a stream of byte values a scan can fail in four ways only: the
    stream ends early ([StopIteration]), the first byte has a reserved bit
    set, a block head is in a reserved range, or an item follows the stop
    byte.  It never raises [read_n]'s "negative value" error nor the index
    error of [islice]. *)
Theorem sc_stats_bytes_errors (s rest : list Z) (e : exn) :
  Forall is_byte s ->
  sc_stats s = (Raise e, rest) ->
  e = StopIteration
  \/ e = AssertionError
  \/ (exists h, e = InvalidHeader h /\ Z.land h 0xe0 <> 0)
  \/ (exists h, e = InvalidBlockHead h /\ reserved_head h).
Proof.
  intros Hb. rewrite sc_stats_unfold.
  destruct (sc_decode_header s) as [[[en n] | ex |] s1] eqn:Hhdr.
  - assert (Hb1 : Forall is_byte s1).
    { destruct (sc_decode_header_ok_inv _ _ _ _ Hhdr)
        as (head & s0 & L & -> & _ & _ & _ & -> & _).
      apply Forall_drop. apply Forall_cons_1 in Hb as [_ Hs0]. exact Hs0. }
    destruct (block_loop (S (length s1)) (s1, fresh_stats en n))
      as [[[] | ex |] [s2 st2]] eqn:Hloop.
    + destruct s2; [discriminate |]. intros [= <- _]. right. left. reflexivity.
    + intros [= <- _].
      destruct (block_loop_bytes_raise _ _ _ _ _ _ Hb1 Hloop) as [-> | Hres].
      * left. reflexivity.
      * right. right. right. exact Hres.
    + discriminate.
  - intros [= <- _].
    destruct (sc_decode_header_bytes_raise _ _ _ Hb Hhdr) as [-> | Hres].
    + left. reflexivity.
    + right. right. left. exact Hres.
  - discriminate.
Qed.

Lemma sc_stats_bytes_errors_witness :
  InvalidBlockHead 0xc1 = StopIteration
  \/ InvalidBlockHead 0xc1 = AssertionError
  \/ (exists h, InvalidBlockHead 0xc1 = InvalidHeader h /\ Z.land h 0xe0 <> 0)
  \/ (exists h, InvalidBlockHead 0xc1 = InvalidBlockHead h /\ reserved_head h).
Proof.
  apply (sc_stats_bytes_errors [0x01; 5; 0x02; 1; 2; 0xc1; 0] [0] (InvalidBlockHead 0xc1)).
  - byte_list.
  - reflexivity.
Defined.

(** ** A block round that returns *)

Lemma block_kind_ok_head (head : Z) (s s1 : list Z) (st st1 : Stats) (n k : Z) :
  block_kind head (s, st) = (Ok (n, k), (s1, st1)) ->
  (head <= 0x80 /\ n = 0 /\ k = head)
  \/ (0xa0 <= head <= 0xbf /\ n = 1 /\ k = head - 0xa0)
  \/ (0xc2 <= head <= 0xc4 /\ n = head - 0xc0).
Proof.
  unfold block_kind.
  destruct (Z.leb_spec head 0x80).
  { intros [= <- <- _ _]. left. repeat split. exact H. }
  destruct (Z.leb_spec 0xa0 head), (Z.ltb_spec head 0xc0); simpl andb; cbv iota;
    try (intros [= <- <- _ _]; right; left; repeat split; lia);
    destruct (Z.leb_spec 0xc2 head), (Z.leb_spec head 0xc4); simpl andb; cbv iota;
    try discriminate.
  all: destruct s as [| c s0]; [discriminate |];
    intros [= <- _ _ _]; right; right; repeat split; lia.
Qed.

(** X9. Whatever integers the stream yields, a block round returns [False]
    only on the stop byte, which it consumes alone, and returns [True] only
    on a head in 1..0x80, 0xa0..0xbf or 0xc2..0xc4, with one block type in
    0..4 tallied and at least the head consumed. *)
Theorem sc_decode_block_ok_shape (s s' : list Z) (st st' : Stats) (more : bool) :
  sc_decode_block (s, st) = (Ok more, (s', st')) ->
  exists head s0,
    s = head :: s0
    /\ (more = false -> head = 0 /\ s' = s0 /\ st' = st)
    /\ (more = true ->
        (1 <= head <= 0x80 \/ 0xa0 <= head <= 0xbf \/ 0xc2 <= head <= 0xc4)
        /\ (exists n, 0 <= n <= 4 /\ st' = tally n st)
        /\ (length s' < length s)%nat).
Proof.
  destruct more; intros Hblock.
  - pose proof (sc_decode_block_progress _ _ _ _ Hblock) as Hlt.
    apply sc_decode_block_true_inv in Hblock
      as (head & s0 & s1 & n & k & -> & Hhead & Hkind & Hsize & -> & ->).
    exists head, s0. split; [reflexivity |]. split; [discriminate |].
    intros _. repeat split.
    + destruct (block_kind_ok_head _ _ _ _ _ _ _ Hkind)
        as [(Hh & -> & ->) | [(Hh & _) | (Hh & _)]]; lia.
    + exists n. split; [| reflexivity].
      apply (block_kind_stream _ _ _ _ _ _ _ Hkind).
    + exact Hlt.
  - apply sc_decode_block_false_inv in Hblock as (rest & -> & [= -> ->]).
    exists 0, rest. split; [reflexivity |]. split; [| discriminate].
    intros _. repeat split.
Qed.

Lemma sc_decode_block_ok_shape_witness :
  exists head s0,
    [0xc2; 2; 1; 2; 3; 4; 0] = head :: s0
    /\ (true = false -> head = 0 /\ [0] = s0
        /\ tally 2 (fresh_stats little 0) = fresh_stats little 0)
    /\ (true = true ->
        (1 <= head <= 0x80 \/ 0xa0 <= head <= 0xbf \/ 0xc2 <= head <= 0xc4)
        /\ (exists n, 0 <= n <= 4
                      /\ tally 2 (fresh_stats little 0) = tally n (fresh_stats little 0))
        /\ (length [0] < length [0xc2; 2; 1; 2; 3; 4; 0])%nat).
Proof.
  apply (sc_decode_block_ok_shape [0xc2; 2; 1; 2; 3; 4; 0] [0]
           (fresh_stats little 0) (tally 2 (fresh_stats little 0)) true).
  reflexivity.
Defined.
